(** * The in-memory user store of the tRPC client template

    A shallow embedding of [dist/server/db.js] (the "imaginary database"
    behind the three procedures [userList], [userById], [userCreate]) and
    of the [userById] input parser shown in the README.

    JavaScript objects are finite maps from property names to values, the
    module-level array [users] is a list, and the three [async] functions
    of [db.user] are state-passing computations over that list: none of
    them contains an [await], so each body runs to completion at the call
    and the promise it returns is already settled. *)

From Stdlib Require Import Floats.PrimFloat.
From stdpp Require Import gmap strings list fin_maps pretty.

Local Open Scope string_scope.
Local Open Scope list_scope.

(** ** JavaScript values *)

Module JS.

(** Heap addresses of objects whose contents the store never inspects. *)
Definition loc := nat.

(** The language types of a JavaScript value.  Numbers are IEEE doubles;
    an object or function that occurs as a property value is kept as its
    reference, since [===] compares references. *)
Inductive value :=
  | VUndefined
  | VNull
  | VBoolean (b : bool)
  | VNumber (x : float)
  | VBigInt (z : Z)
  | VString (s : string)
  | VSymbol (id : nat)
  | VObject (l : loc)
  | VFunction (l : loc).

(** [typeof v] *)
Definition typeof (v : value) : string :=
  match v with
  | VUndefined => "undefined"
  | VNull => "object"
  | VBoolean _ => "boolean"
  | VNumber _ => "number"
  | VBigInt _ => "bigint"
  | VString _ => "string"
  | VSymbol _ => "symbol"
  | VObject _ => "object"
  | VFunction _ => "function"
  end.

(** [a === b] (IsStrictlyEqual): different types are never equal, numbers
    compare as doubles (so [NaN !== NaN] and [+0 === -0]), objects,
    functions and symbols by identity. *)
Definition strict_eq (a b : value) : bool :=
  match a, b with
  | VUndefined, VUndefined => true
  | VNull, VNull => true
  | VBoolean x, VBoolean y => bool_decide (x = y)
  | VNumber x, VNumber y => PrimFloat.eqb x y
  | VBigInt x, VBigInt y => bool_decide (x = y)
  | VString x, VString y => bool_decide (x = y)
  | VSymbol x, VSymbol y => bool_decide (x = y)
  | VObject x, VObject y => bool_decide (x = y)
  | VFunction x, VFunction y => bool_decide (x = y)
  | _, _ => false
  end.

(** An ordinary object, seen through its own enumerable string-keyed data
    properties: this is all that a property read, an object literal and a
    spread observe. *)
Abbreviation object := (gmap string value).

(** [o.k]: the value of the property, [undefined] when [o] has none
    (the objects of the store inherit only from [Object.prototype], which
    has neither an [id] nor a [name]). *)
Definition Get (o : object) (k : string) : value :=
  default VUndefined (o !! k).

(** [{ ...target, ...source }] (CopyDataProperties): every property of
    [source] is defined on the result, replacing one of the same name. *)
Definition spread (target source : object) : object := source ∪ target.

(** [String(n)] for a number that is a non-negative integer, which is what
    [users.length + 1] always is: its decimal digits. *)
Definition String_ (n : nat) : string := pretty n.

(** [arr.find(callback)]: the first element, in index order, for which the
    callback is true; [None] stands for the [undefined] that [find]
    returns when there is none. *)
Fixpoint Array_find {A} (callback : A → bool) (arr : list A) : option A :=
  match arr with
  | [] => None
  | x :: rest => if callback x then Some x else Array_find callback rest
  end.

(** [arr.push(x)]: the array with [x] after its last element.  A list has
    no largest length; the limit of 2^32 - 1 elements of a JavaScript
    array is beyond what a process can allocate and is left out. *)
Definition Array_push {A} (arr : list A) (x : A) : list A := arr ++ [x].

End JS.

Import JS.

(** ** The store: [dist/server/db.js] *)

(** The contents of [const users = []] at some moment. *)
Abbreviation Users := (list object).

(** A computation that reads and updates [users] and produces an [A]. *)
Definition M (A : Type) : Type := Users → A * Users.

#[global] Instance M_ret : MRet M := λ A (a : A) users, (a, users).

#[global] Instance M_bind : MBind M := λ A B (k : A → M B) (m : M A) users,
  let (a, users') := m users in k a users'.

Definition get_users : M Users := λ users, (users, users).

Definition push_user (user : object) : M unit :=
  λ users, (tt, Array_push users user).

Module db.
Module user.

(** [findMany: async () => users] *)
Definition findMany : M Users := get_users.

(** [findById: async (id) => users.find((user) => user.id === id)] *)
Definition findById (id : value) : M (option object) :=
  users ← get_users;
  mret (Array_find (λ user, strict_eq (Get user "id") id) users).

(** [create: async (data) => {
       const user = { id: String(users.length + 1), ...data };
       users.push(user);
       return user;
     }]
    [data] is given by the properties that the spread copies: those of
    the object passed in, none at all for [undefined], [null], a number
    or a boolean. *)
Definition create (data : object) : M object :=
  users ← get_users;
  let user := spread {[ "id" := VString (String_ (length users + 1)) ]} data in
  _ ← push_user user;
  mret user.

End user.
End db.

(** The store right after the module is loaded. *)
Definition initial : Users := [].

(** ** Call sequences *)

(** One call on [db.user]. *)
Inductive call :=
  | FindMany
  | FindById (id : value)
  | Create (data : object).

(** The store after one call. *)
Definition step (users : Users) (c : call) : Users :=
  match c with
  | FindMany => (db.user.findMany users).2
  | FindById id => (db.user.findById id users).2
  | Create data => (db.user.create data users).2
  end.

(** The store after a sequence of calls, served one after the other. *)
Definition exec (calls : list call) (users : Users) : Users :=
  foldl step users calls.

(** A call whose argument, if it is a [create], has no [id] of its own. *)
Definition assigns_id (c : call) : Prop :=
  match c with
  | Create data => data !! "id" = None
  | _ => True
  end.

(** The ids of the stored users, in order. *)
Definition ids (users : Users) : list value :=
  (λ user, Get user "id") <$> users.

(** The user at index [i] carries the id that [create] computes for an
    array of length [i]. *)
Definition numbered (users : Users) : Prop :=
  ∀ i user, users !! i = Some user →
    user !! "id" = Some (VString (String_ (i + 1))).

(** The number of [create] calls in a sequence. *)
Fixpoint creates (calls : list call) : nat :=
  match calls with
  | [] => 0
  | Create _ :: rest => S (creates rest)
  | _ :: rest => creates rest
  end.

(** The users that a run of [create] calls stores when the array already
    holds [first] elements and no input brings an id: each input with the
    next number as its [id]. *)
Definition stored (first : nat) (datas : list object) : Users :=
  imap (λ i data, <["id" := VString (String_ (first + i + 1))]> data) datas.

(** ** The [userById] procedure of the README *)

(** What a function call completes with: a returned value or a thrown
    [Error] and its message. *)
Inductive completion (A : Type) :=
  | Return (a : A)
  | Throw (message : string).
Arguments Return {A} a.
Arguments Throw {A} message.

(** [(val) => {
       if (typeof val === 'string') return val;
       throw new Error(`Invalid input: ${typeof val}`);
     }] *)
Definition userById_input (val : value) : completion value :=
  if bool_decide (typeof val = "string") then Return val
  else Throw ("Invalid input: " +:+ typeof val).

(** [async (opts) => {
       const { input } = opts;
       const user = await db.user.findById(input);
       return user;
     }] *)
Definition userById_resolver (input : value) : M (completion (option object)) :=
  user ← db.user.findById input;
  mret (Return user).

Inductive ProcedureKind := Query | Mutation.

Record ProcedureDefinition (Output : Type) := {
  kind : ProcedureKind;
  validate : value → completion value;
  handle : value → M (completion Output);
}.
Arguments kind {Output} _.
Arguments validate {Output} _.
Arguments handle {Output} _.

(** [publicProcedure.input(...).query(...)] *)
Definition userById : ProcedureDefinition (option object) :=
  {| kind := Query; validate := userById_input; handle := userById_resolver |}.

(** How one invocation of a procedure ends. *)
Inductive Outcome (Output : Type) :=
  | Success (output : Output)
  | ValidationError (raw : value) (reason : string)
  | HandlerError (cause : string).
Arguments Success {Output} output.
Arguments ValidationError {Output} raw reason.
Arguments HandlerError {Output} cause.

(** Modelled from the spec: the validate-then-handle pipeline that
    [@trpc/server] runs for a procedure built with [.input(..).query(..)];
    the framework is a dependency and its code is not in the repository.
    Steps 3 to 5 of [invoke]: run [validate] on the raw input; if it
    reports invalid input, fail with a [ValidationError] carrying the raw
    value and the reason and do not invoke the handler; otherwise invoke
    [handle] on the validated input, report its failure as a
    [HandlerError], and return its output unchanged.  The third component
    lists the inputs the handler was invoked with. *)
Definition invoke_validated {Output} (p : ProcedureDefinition Output)
    (rawInput : value) (users : Users) : Outcome Output * Users * list value :=
  match validate p rawInput with
  | Throw reason => (ValidationError rawInput reason, users, [])
  | Return input =>
      match handle p input users with
      | (Return output, users') => (Success output, users', [input])
      | (Throw cause, users') => (HandlerError cause, users', [input])
      end
  end.

(** ** The scenario of the template *)

(** The four calls the client makes against a freshly loaded store, with
    what each of them answers. *)
Definition scenario : M (object * Users * option object * option object) :=
  created ← db.user.create {[ "name" := VString "sachinraja" ]};
  listed ← db.user.findMany;
  first ← db.user.findById (VString "1");
  missing ← db.user.findById (VString "999");
  mret (created, listed, first, missing).

(** ** Small checks of the embedding *)

Example String_1 : String_ 1 = "1".
Proof. reflexivity. Qed.

Example String_10 : String_ 10 = "10".
Proof. reflexivity. Qed.

Example strict_eq_nan : strict_eq (VNumber nan) (VNumber nan) = false.
Proof. reflexivity. Qed.

Example strict_eq_zero : strict_eq (VNumber 0%float) (VNumber (-0)%float) = true.
Proof. reflexivity. Qed.

Example strict_eq_types : strict_eq (VNumber 1%float) (VString "1") = false.
Proof. reflexivity. Qed.

Example create_first :
  db.user.create {[ "name" := VString "sachinraja" ]} initial
  = ({[ "id" := VString "1"; "name" := VString "sachinraja" ]},
     [ {[ "id" := VString "1"; "name" := VString "sachinraja" ]} ]).
Proof. vm_compute. reflexivity. Qed.

Example userById_input_number :
  userById_input (VNumber 42%float) = Throw "Invalid input: number".
Proof. reflexivity. Qed.

(** ** Facts about the JavaScript primitives *)

Section primitives.

Lemma strict_eq_string (v : value) (s : string) :
  strict_eq v (VString s) = true ↔ v = VString s.
Proof.
  destruct v; simpl; try (split; [discriminate | congruence]).
  rewrite bool_decide_eq_true. split; congruence.
Qed.

Lemma strict_eq_string_refl (s : string) :
  strict_eq (VString s) (VString s) = true.
Proof. by apply strict_eq_string. Qed.

Lemma Get_string (o : object) (k s : string) :
  Get o k = VString s ↔ o !! k = Some (VString s).
Proof.
  unfold Get. destruct (o !! k) as [v|]; simpl; split; congruence.
Qed.

Lemma typeof_string (v : value) :
  typeof v = "string" ↔ ∃ s, v = VString s.
Proof.
  split.
  - destruct v; simpl; try discriminate. eauto.
  - by intros [s ->].
Qed.

Lemma String_inj (m n : nat) : String_ m = String_ n → m = n.
Proof. unfold String_. apply (inj pretty). Qed.

(** The object literal of [create]: the properties of [data], and the
    computed [id] when [data] has none. *)
Lemma spread_lookup (target source : object) (k : string) :
  spread target source !! k =
    match source !! k with Some v => Some v | None => target !! k end.
Proof.
  unfold spread. rewrite lookup_union.
  destruct (source !! k), (target !! k); reflexivity.
Qed.

Lemma spread_own_id (data : object) (s : string) (v : value) :
  data !! "id" = Some v → spread {[ "id" := VString s ]} data = data.
Proof.
  intros Hid. apply map_eq. intros k. rewrite spread_lookup.
  destruct (data !! k) eqn:Hk; [done |].
  apply lookup_singleton_ne. intros <-. congruence.
Qed.

Context {A : Type} (callback : A → bool).

Lemma Array_find_None (arr : list A) :
  Array_find callback arr = None ↔ ∀ x, x ∈ arr → callback x = false.
Proof.
  induction arr as [|a arr IH]; simpl.
  - split; [intros _ x Hx; by apply elem_of_nil in Hx | done].
  - destruct (callback a) eqn:Ha.
    + split; [discriminate |]. intros H.
      specialize (H a (list_elem_of_here _ _)). congruence.
    + rewrite IH. split.
      * intros H x [->|Hx]%elem_of_cons; auto.
      * intros H x Hx. apply H. by apply list_elem_of_further.
Qed.

(** [find] answers with the element at the least index that satisfies the
    callback. *)
Lemma Array_find_Some (arr : list A) (x : A) :
  Array_find callback arr = Some x ↔
  ∃ i, arr !! i = Some x ∧ callback x = true
       ∧ ∀ j y, j < i → arr !! j = Some y → callback y = false.
Proof.
  induction arr as [|a arr IH]; simpl.
  - split; [discriminate |]. by intros (i & Hi & _).
  - destruct (callback a) eqn:Ha.
    + split.
      * intros [= <-]. exists 0. repeat split; [done |]. intros j y Hj. lia.
      * intros (i & Hi & Hx & Hbefore). destruct i as [|i].
        -- simpl in Hi. congruence.
        -- specialize (Hbefore 0 a (Nat.lt_0_succ i) eq_refl). congruence.
    + rewrite IH. split.
      * intros (i & Hi & Hx & Hbefore). exists (S i). repeat split; [done.. |].
        intros [|j] y Hj Hy; simpl in Hy; [congruence |].
        apply (Hbefore j); [lia | done].
      * intros (i & Hi & Hx & Hbefore). destruct i as [|i].
        -- simpl in Hi. congruence.
        -- exists i. repeat split; [done.. |].
           intros j y Hj Hy. apply (Hbefore (S j)); [lia | done].
Qed.

Lemma Array_find_push_fresh (arr : list A) (x : A) :
  (∀ y, y ∈ arr → callback y = false) → callback x = true →
  Array_find callback (Array_push arr x) = Some x.
Proof.
  intros Hold Hx. apply Array_find_Some. exists (length arr).
  unfold Array_push. repeat split; [| done |].
  - by rewrite lookup_app_r, Nat.sub_diag.
  - intros j y Hj Hy. rewrite lookup_app_l in Hy by done.
    apply Hold. apply list_elem_of_lookup. eauto.
Qed.

End primitives.

(** ** Facts about the three operations *)

Lemma create_eq (data : object) (users : Users) :
  db.user.create data users =
    (spread {[ "id" := VString (String_ (length users + 1)) ]} data,
     users ++ [spread {[ "id" := VString (String_ (length users + 1)) ]} data]).
Proof. reflexivity. Qed.

Lemma findById_eq (id : value) (users : Users) :
  db.user.findById id users =
    (Array_find (λ user, strict_eq (Get user "id") id) users, users).
Proof. reflexivity. Qed.

Lemma create_assigned_lookup (data : object) (users : Users) :
  data !! "id" = None →
  (db.user.create data users).1 !! "id"
    = Some (VString (String_ (length users + 1))).
Proof.
  intros Hid. rewrite create_eq. simpl. rewrite spread_lookup, Hid.
  apply lookup_singleton_eq.
Qed.

Lemma create_assigned_Get (data : object) (users : Users) :
  data !! "id" = None →
  Get (db.user.create data users).1 "id" = VString (String_ (length users + 1)).
Proof. intros Hid. apply Get_string. by apply create_assigned_lookup. Qed.

(** After [create], [findById] of the new user's id finds the new user,
    as long as no older user matches that id and the id matches itself. *)
Lemma findById_after_create (users : Users) (data : object) :
  (∀ old, old ∈ users →
     strict_eq (Get old "id") (Get (db.user.create data users).1 "id") = false) →
  strict_eq (Get (db.user.create data users).1 "id")
            (Get (db.user.create data users).1 "id") = true →
  (db.user.findById (Get (db.user.create data users).1 "id")
     (db.user.create data users).2).1
  = Some (db.user.create data users).1.
Proof.
  rewrite create_eq. cbn [fst snd]. intros Hold Hself.
  rewrite findById_eq. cbn [fst].
  by apply (Array_find_push_fresh (λ user, strict_eq (Get user "id") _)).
Qed.

Lemma exec_app (pre post : list call) (users : Users) :
  exec (pre ++ post) users = exec post (exec pre users).
Proof. apply foldl_app. Qed.

Lemma numbered_step (users : Users) (c : call) :
  assigns_id c → numbered users → numbered (step users c).
Proof.
  destruct c as [| id | data]; [done.. |].
  intros Hid Hnum i user. cbn [assigns_id step] in *. rewrite create_eq. cbn [snd].
  destruct (decide (i < length users)) as [Hlt | Hge].
  - rewrite lookup_app_l by done. apply Hnum.
  - rewrite lookup_app_r by lia.
    destruct (i - length users) as [|k] eqn:Hk; simpl; [| done].
    intros [= <-]. replace i with (length users) by lia.
    rewrite spread_lookup, Hid. apply lookup_singleton_eq.
Qed.

Lemma numbered_exec (calls : list call) (users : Users) :
  Forall assigns_id calls → numbered users → numbered (exec calls users).
Proof.
  intros Hcalls. revert users.
  induction Hcalls as [| c calls Hc _ IH]; intros users Hnum; [done |].
  apply IH. by apply numbered_step.
Qed.

Lemma numbered_initial : numbered initial.
Proof. intros i user Hi. unfold initial in Hi. by rewrite lookup_nil in Hi. Qed.

Lemma numbered_ids_NoDup (users : Users) :
  numbered users → NoDup (ids users).
Proof.
  intros Hnum. apply NoDup_alt. intros i j v Hi Hj.
  unfold ids in Hi, Hj. rewrite list_lookup_fmap in Hi, Hj.
  destruct (users !! i) as [ui|] eqn:Hui; [| done].
  destruct (users !! j) as [uj|] eqn:Huj; [| done].
  simpl in Hi, Hj. apply Hnum in Hui, Huj.
  apply Get_string in Hui, Huj.
  assert (String_ (i + 1) = String_ (j + 1)) as Heq by congruence.
  apply String_inj in Heq. lia.
Qed.

Lemma numbered_next_id_fresh (users : Users) :
  numbered users → VString (String_ (length users + 1)) ∉ ids users.
Proof.
  intros Hnum Hin. unfold ids in Hin.
  apply list_elem_of_fmap in Hin as (user & Hid & Huser).
  apply list_elem_of_lookup in Huser as [i Hi].
  pose proof (lookup_lt_Some _ _ _ Hi) as Hlt.
  apply Hnum, Get_string in Hi.
  assert (String_ (length users + 1) = String_ (i + 1)) as Heq by congruence.
  apply String_inj in Heq. lia.
Qed.

(** ** The id that [create] gives *)

(** C1, as stated, fails: on the empty store, [create] of a [data] that has
    an [id] property of its own answers with that id, ["7"], and not with
    the length of the sequence plus one as a string, ["1"]. *)
Lemma create_id_not_always_assigned :
  Get (db.user.create {[ "id" := VString "7"; "name" := VString "a" ]} initial).1 "id"
  ≠ VString (String_ (length initial + 1)).
Proof. vm_compute. discriminate. Qed.

(** C1, amended: for every state of the user sequence and every input
    [data] that has no [id] property of its own, [create(data)] returns a
    user whose [id] is the length of the sequence at the time of the call
    plus one, converted to a string. *)
Theorem create_assigns_id (users : Users) (data : object) :
  data !! "id" = None →
  Get (db.user.create data users).1 "id" = VString (String_ (length users + 1)).
Proof.
  intros Hid. rewrite create_eq. cbn [fst].
  unfold Get. rewrite spread_lookup, Hid.
  by rewrite lookup_singleton_eq.
Qed.

Lemma create_assigns_id_witness :
  ({[ "name" := VString "sachinraja" ]} : object) !! "id" = None
  ∧ Get (db.user.create {[ "name" := VString "sachinraja" ]}
           [ {[ "id" := VString "1"; "name" := VString "ada" ]} ]).1 "id"
    = VString (String_ 2).
Proof.
  split; [reflexivity |].
  apply (create_assigns_id
           [ {[ "id" := VString "1"; "name" := VString "ada" ]} ]
           {[ "name" := VString "sachinraja" ]}).
  reflexivity.
Defined.

(** C2, as stated, fails: from the empty store, a [create] whose [data]
    brings the id ["2"] followed by a [create] without an id leaves two
    stored users that both have the id ["2"]. *)
Lemma ids_not_always_distinct :
  ¬ NoDup (ids (exec [ Create {[ "id" := VString "2"; "name" := VString "a" ]};
                       Create {[ "name" := VString "b" ]} ] initial)).
Proof.
  vm_compute. intros Hnodup. apply NoDup_cons in Hnodup as [Hnotin _].
  apply Hnotin. apply list_elem_of_here.
Qed.

(** C2, amended: starting from the empty store, after any sequence of
    [create], [findMany] and [findById] calls in which no [create] input
    has an [id] property of its own, the ids of all stored users are
    pairwise distinct, and each [create] of the sequence returns an id
    that differs from the id of every user stored at that moment. *)
Theorem assigned_ids_are_unique (calls : list call) :
  Forall assigns_id calls →
  NoDup (ids (exec calls initial))
  ∧ ∀ pre data post, calls = pre ++ Create data :: post →
      Get (db.user.create data (exec pre initial)).1 "id"
        ∉ ids (exec pre initial).
Proof.
  intros Hcalls. split.
  - apply numbered_ids_NoDup, numbered_exec; [done | apply numbered_initial].
  - intros pre data post ->.
    apply Forall_app in Hcalls as [Hpre Hrest].
    apply Forall_cons in Hrest as [Hdata _]. cbn [assigns_id] in Hdata.
    rewrite (create_assigned_Get _ _ Hdata).
    apply numbered_next_id_fresh, numbered_exec; [done | apply numbered_initial].
Qed.

Lemma assigned_ids_are_unique_witness :
  Forall assigns_id
    [ Create {[ "name" := VString "sachinraja" ]}; FindMany;
      FindById (VString "1"); Create {[ "name" := VString "ada" ]} ]
  ∧ NoDup (ids (exec
      [ Create {[ "name" := VString "sachinraja" ]}; FindMany;
        FindById (VString "1"); Create {[ "name" := VString "ada" ]} ]
      initial)).
Proof.
  assert (Forall assigns_id
    [ Create {[ "name" := VString "sachinraja" ]}; FindMany;
      FindById (VString "1"); Create {[ "name" := VString "ada" ]} ])
    as Hcalls.
  { repeat constructor. }
  split; [exact Hcalls |].
  exact (proj1 (assigned_ids_are_unique _ Hcalls)).
Defined.

(** ** Looking a user up *)

(** C3: for every store and every id string, [findById(id)] answers with
    a stored user whose [id] is the argument when there is one, and with
    nothing when no stored user has that id; it answers with a user
    exactly when some stored user has the id.  In particular
    [findById("999")] on a store that holds only a user with id ["1"] is
    absent. *)
Theorem findById_found_or_absent (users : Users) (id : string) :
  match (db.user.findById (VString id) users).1 with
  | Some user => user ∈ users ∧ Get user "id" = VString id
  | None => ∀ user, user ∈ users → Get user "id" ≠ VString id
  end
  ∧ (is_Some (db.user.findById (VString id) users).1
     ↔ ∃ user, user ∈ users ∧ Get user "id" = VString id)
  ∧ ∀ user1 : object,
      (db.user.findById (VString "999") [ <["id" := VString "1"]> user1 ]).1
      = None.
Proof.
  rewrite findById_eq. cbn [fst].
  set (matches := λ user : object, strict_eq (Get user "id") (VString id)).
  assert (match Array_find matches users with
          | Some user => user ∈ users ∧ Get user "id" = VString id
          | None => ∀ user, user ∈ users → Get user "id" ≠ VString id
          end) as Hcases.
  { destruct (Array_find matches users) as [user|] eqn:Hfind.
    - apply Array_find_Some in Hfind as (i & Hi & Hmatch & _). split.
      + apply list_elem_of_lookup. eauto.
      + by apply strict_eq_string.
    - intros user Huser Hid.
      pose proof (proj1 (Array_find_None matches users) Hfind user Huser) as Hno.
      apply strict_eq_string in Hid. unfold matches in Hno. congruence. }
  split; [exact Hcases |]. split.
  - destruct (Array_find matches users) as [user|]; split.
    + intros _. by exists user.
    + intros _. by eexists.
    + by intros [? [=]].
    + intros (user & Huser & Hid). by destruct (Hcases user Huser).
  - intros user1. rewrite findById_eq. cbn [fst Array_find].
    unfold Get. by rewrite lookup_insert_eq.
Qed.

(** C4, as stated, fails: after [create({name: "a"})] on the empty store,
    [create({id: "1", name: "b"})] returns the user [{id: "1", name: "b"}],
    and [findById] of its id on the resulting store answers with the
    earlier user [{id: "1", name: "a"}]. *)
Lemma create_findById_roundtrip_fails :
  (db.user.findById
     (Get (db.user.create {[ "id" := VString "1"; "name" := VString "b" ]}
             (db.user.create {[ "name" := VString "a" ]} initial).2).1 "id")
     (db.user.create {[ "id" := VString "1"; "name" := VString "b" ]}
        (db.user.create {[ "name" := VString "a" ]} initial).2).2).1
  ≠ Some (db.user.create {[ "id" := VString "1"; "name" := VString "b" ]}
            (db.user.create {[ "name" := VString "a" ]} initial).2).1.
Proof.
  intros Heq. apply (f_equal (λ found, found ≫= (.!! "name"))) in Heq.
  vm_compute in Heq. discriminate.
Qed.

(** C4, amended: for every store and every input [data], if
    [create(data)] returns the user [u], no user stored before the call
    has an id strictly equal ([===]) to [u.id], and [u.id] is strictly
    equal to itself (it is not [NaN]), then [findById(u.id)] evaluated on
    the resulting store returns exactly [u]. *)
Theorem create_findById_roundtrip (users : Users) (data : object) :
  (∀ old, old ∈ users →
     strict_eq (Get old "id") (Get (db.user.create data users).1 "id") = false) →
  strict_eq (Get (db.user.create data users).1 "id")
            (Get (db.user.create data users).1 "id") = true →
  (db.user.findById (Get (db.user.create data users).1 "id")
     (db.user.create data users).2).1
  = Some (db.user.create data users).1.
Proof.
  rewrite create_eq. cbn [fst snd].
  set (user := spread _ data). intros Hold Hself.
  rewrite findById_eq. cbn [fst].
  apply Array_find_Some. exists (length users). repeat split.
  - by rewrite lookup_app_r, Nat.sub_diag.
  - exact Hself.
  - intros j old Hj Hlookup. rewrite lookup_app_l in Hlookup by done.
    apply Hold. apply list_elem_of_lookup. eauto.
Qed.

(** A [NaN] id is never found again: the second condition is needed. *)
Example create_findById_nan :
  (db.user.findById (VNumber nan)
     (db.user.create {[ "id" := VNumber nan ]} initial).2).1 = None.
Proof. vm_compute. reflexivity. Qed.

(** On the stores that the template itself builds, the conditions hold:
    after any calls from the empty store whose [create] inputs bring no
    id, a further such [create] is found again under its id. *)
Corollary roundtrip_on_assigned_ids (calls : list call) (data : object) :
  Forall assigns_id calls → data !! "id" = None →
  (db.user.findById (Get (db.user.create data (exec calls initial)).1 "id")
     (db.user.create data (exec calls initial)).2).1
  = Some (db.user.create data (exec calls initial)).1.
Proof.
  intros Hcalls Hdata.
  assert (numbered (exec calls initial)) as Hnum
    by (apply numbered_exec; [done | apply numbered_initial]).
  apply findById_after_create; rewrite (create_assigned_Get _ _ Hdata).
  - intros old Hold. destruct (strict_eq _ _) eqn:Heq; [| done].
    apply strict_eq_string in Heq. exfalso.
    apply (numbered_next_id_fresh _ Hnum).
    unfold ids. apply list_elem_of_fmap. eauto.
  - apply strict_eq_string_refl.
Qed.

Lemma create_findById_roundtrip_witness :
  (db.user.findById
     (Get (db.user.create {[ "name" := VString "ada" ]}
             [ {[ "id" := VString "1"; "name" := VString "sachinraja" ]} ]).1 "id")
     (db.user.create {[ "name" := VString "ada" ]}
        [ {[ "id" := VString "1"; "name" := VString "sachinraja" ]} ]).2).1
  = Some (db.user.create {[ "name" := VString "ada" ]}
            [ {[ "id" := VString "1"; "name" := VString "sachinraja" ]} ]).1.
Proof.
  apply (create_findById_roundtrip
           [ {[ "id" := VString "1"; "name" := VString "sachinraja" ]} ]
           {[ "name" := VString "ada" ]}).
  - intros old Hold. apply list_elem_of_singleton in Hold. subst old.
    vm_compute. reflexivity.
  - vm_compute. reflexivity.
Defined.

(** ** The scenario, run *)

(** C5: from the empty store, [create({name: "sachinraja"})] returns
    [{id: "1", name: "sachinraja"}]; the [findMany] that follows returns
    the one-element sequence holding that user; [findById("1")] returns
    that user; and [findById("999")] is absent. *)
Theorem scenario_answers :
  (scenario initial).1
  = ({[ "id" := VString "1"; "name" := VString "sachinraja" ]},
     [ {[ "id" := VString "1"; "name" := VString "sachinraja" ]} ],
     Some {[ "id" := VString "1"; "name" := VString "sachinraja" ]},
     None).
Proof. vm_compute. reflexivity. Qed.

(** ** What each operation does to the store *)

(** C6: the two query operations are reads.  Whatever the store holds and
    whatever id is asked for, the store after [findMany()] and after
    [findById(id)] is the store before the call: same length, same users,
    same order.  [findMany] moreover answers with that very sequence. *)
Theorem queries_leave_users_unchanged (users : Users) (id : value) :
  (db.user.findMany users).2 = users
  ∧ (db.user.findMany users).1 = users
  ∧ (db.user.findById id users).2 = users.
Proof. repeat split. Qed.

(** C7: for every store and every input [data], [create(data)] changes
    the store only by putting the user it returns after the last element:
    the length grows by one, the new user sits at the old length, and
    every index that held a user before holds the same user after. *)
Theorem create_appends_one_user (users : Users) (data : object) :
  (db.user.create data users).2 = users ++ [(db.user.create data users).1]
  ∧ length (db.user.create data users).2 = length users + 1
  ∧ (db.user.create data users).2 !! length users
    = Some (db.user.create data users).1
  ∧ ∀ i, i < length users →
      (db.user.create data users).2 !! i = users !! i.
Proof.
  rewrite create_eq. cbn [fst snd]. repeat split.
  - rewrite length_app. simpl. lia.
  - by rewrite lookup_app_r, Nat.sub_diag.
  - intros i Hi. by apply lookup_app_l.
Qed.

(** ** The input parser of [userById] *)

(** C8: the [userById] input parser accepts exactly the strings.  For a
    string input it returns the input unchanged, and the procedure then
    invokes the handler once, with that string, and succeeds with what
    [findById] answers; for any other input it throws an error whose
    message names the type of the input, the invocation ends in a
    validation error that carries the raw input and that message, the
    handler is not invoked and the store is untouched. *)
Theorem userById_input_accepts_exactly_strings (val : value) (users : Users) :
  match val with
  | VString s =>
      userById_input val = Return (VString s)
      ∧ invoke_validated userById val users
        = (Success (db.user.findById (VString s) users).1, users, [VString s])
  | _ =>
      userById_input val = Throw ("Invalid input: " +:+ typeof val)
      ∧ invoke_validated userById val users
        = (ValidationError val ("Invalid input: " +:+ typeof val), users, [])
  end.
Proof. destruct val; split; reflexivity. Qed.

(** ** Ids brought by the caller, and duplicates *)

(** C9: for every store and every input [data] that has an [id] property
    of its own, [create(data)] returns and stores a user whose id is
    [data.id]: the user is [data] itself, property for property, it is
    the last element of the resulting store, and its id is not the
    computed [String(length + 1)] unless [data.id] happens to be that
    very string. *)
Theorem create_keeps_own_id (users : Users) (data : object) (v : value) :
  data !! "id" = Some v →
  Get (db.user.create data users).1 "id" = v
  ∧ (db.user.create data users).1 = data
  ∧ last (db.user.create data users).2 = Some (db.user.create data users).1
  ∧ (v ≠ VString (String_ (length users + 1)) →
     Get (db.user.create data users).1 "id"
       ≠ VString (String_ (length users + 1))).
Proof.
  intros Hid. rewrite create_eq. cbn [fst snd].
  rewrite (spread_own_id data _ v Hid).
  assert (Get data "id" = v) as Hget by (unfold Get; by rewrite Hid).
  repeat split; [done | apply last_snoc | congruence].
Qed.

Lemma create_keeps_own_id_witness :
  ({[ "id" := VString "7"; "name" := VString "a" ]} : object) !! "id"
  = Some (VString "7")
  ∧ Get (db.user.create {[ "id" := VString "7"; "name" := VString "a" ]}
           initial).1 "id" = VString "7".
Proof.
  split; [reflexivity |].
  apply (create_keeps_own_id initial
           {[ "id" := VString "7"; "name" := VString "a" ]} (VString "7")).
  reflexivity.
Defined.

(** C10: for every store in which two stored users, at indices [i < j],
    both have an id that is [===] to [x], [findById(x)] returns a user:
    the one at the least index whose id is [===] to [x], which is at or
    before [i].  The answer is a function of the store and of [x]. *)
Theorem findById_returns_earliest_match
    (users : Users) (x : value) (i j : nat) (ui uj : object) :
  i < j →
  users !! i = Some ui →
  users !! j = Some uj →
  strict_eq (Get ui "id") x = true →
  strict_eq (Get uj "id") x = true →
  ∃ (k : nat) (user : object),
    (k ≤ i)%nat
    ∧ users !! k = Some user
    ∧ strict_eq (Get user "id") x = true
    ∧ (∀ k' user', k' < k → users !! k' = Some user' →
         strict_eq (Get user' "id") x = false)
    ∧ (db.user.findById x users).1 = Some user.
Proof.
  intros _ Hi _ Hui _. rewrite findById_eq. cbn [fst].
  set (matches := λ user : object, strict_eq (Get user "id") x).
  destruct (Array_find matches users) as [user|] eqn:Hfind.
  - apply Array_find_Some in Hfind as (k & Hk & Hmatch & Hbefore).
    exists k, user. repeat split; try done.
    destruct (decide (k ≤ i)%nat) as [|Hlate]; [done |].
    assert (matches ui = false) as Hno by (apply (Hbefore i); [lia | done]).
    unfold matches in Hno. congruence.
  - pose proof (proj1 (Array_find_None matches users) Hfind ui) as Hno.
    unfold matches in Hno. rewrite Hno in Hui; [done |].
    apply list_elem_of_lookup. eauto.
Qed.

Lemma findById_returns_earliest_match_witness :
  (db.user.findById (VString "1")
     [ {[ "id" := VString "1"; "name" := VString "a" ]};
       {[ "id" := VString "2"; "name" := VString "b" ]};
       {[ "id" := VString "1"; "name" := VString "c" ]} ]).1
  = Some {[ "id" := VString "1"; "name" := VString "a" ]}.
Proof.
  destruct (findById_returns_earliest_match
              [ {[ "id" := VString "1"; "name" := VString "a" ]};
                {[ "id" := VString "2"; "name" := VString "b" ]};
                {[ "id" := VString "1"; "name" := VString "c" ]} ]
              (VString "1") 0 2
              {[ "id" := VString "1"; "name" := VString "a" ]}
              {[ "id" := VString "1"; "name" := VString "c" ]})
    as (k & user & Hk & Hlookup & _ & _ & Hfound);
    [lia | reflexivity | reflexivity | reflexivity | reflexivity |].
  replace k with 0 in Hlookup by lia. simpl in Hlookup.
  congruence.
Defined.

(** ** Sequences of calls *)

Section sequences.

Lemma Array_find_app {A} (callback : A → bool) (old new : list A) :
  Array_find callback (old ++ new) =
    match Array_find callback old with
    | Some x => Some x
    | None => Array_find callback new
    end.
Proof.
  induction old as [|a old IH]; simpl; [done |].
  by destruct (callback a).
Qed.

Lemma exec_cons (c : call) (calls : list call) (users : Users) :
  exec (c :: calls) users = exec calls (step users c).
Proof. reflexivity. Qed.

Lemma step_grows (users : Users) (c : call) :
  ∃ added, step users c = users ++ added ∧ length added = creates [c].
Proof.
  destruct c as [| id | data].
  - exists []. by rewrite app_nil_r.
  - exists []. by rewrite app_nil_r.
  - eexists [_]. split; [| done]. cbn [step]. by rewrite create_eq.
Qed.

Lemma creates_cons (c : call) (calls : list call) :
  creates (c :: calls) = creates [c] + creates calls.
Proof. by destruct c. Qed.

Lemma exec_grows (calls : list call) (users : Users) :
  ∃ added, exec calls users = users ++ added ∧ length added = creates calls.
Proof.
  revert users. induction calls as [|c calls IH]; intros users.
  - exists []. by rewrite app_nil_r.
  - destruct (step_grows users c) as (one & Hstep & Hone).
    destruct (IH (step users c)) as (more & Hexec & Hmore).
    exists (one ++ more). rewrite exec_cons, Hexec, Hstep, creates_cons.
    rewrite length_app, <- (assoc_L (++)). split; [done | lia].
Qed.

Lemma spread_insert_id (data : object) (v : value) :
  data !! "id" = None → spread {[ "id" := v ]} data = <["id" := v]> data.
Proof.
  intros Hid. apply map_eq. intros k. rewrite spread_lookup.
  destruct (decide (k = "id")) as [-> | Hk].
  - by rewrite Hid, lookup_singleton_eq, lookup_insert_eq.
  - rewrite lookup_insert_ne by done. rewrite lookup_singleton_ne by done.
    by destruct (data !! k).
Qed.

(** On a numbered store the lookup of the number [i + 1] is the read of
    index [i]. *)
Lemma numbered_findById (users : Users) (i : nat) :
  numbered users →
  (db.user.findById (VString (String_ (i + 1))) users).1 = users !! i.
Proof.
  intros Hnum. rewrite findById_eq. cbn [fst].
  destruct (users !! i) as [user|] eqn:Hi.
  - apply Array_find_Some. exists i. repeat split; [done | |].
    + apply strict_eq_string, Get_string. by apply Hnum.
    + intros j other Hj Hother. apply Hnum, Get_string in Hother.
      destruct (strict_eq _ _) eqn:Heq; [| done].
      apply strict_eq_string in Heq. rewrite Hother in Heq.
      injection Heq as Heq. apply String_inj in Heq. lia.
  - apply Array_find_None. intros other Hother.
    apply list_elem_of_lookup in Hother as [j Hj].
    pose proof (lookup_lt_Some _ _ _ Hj) as Hlt.
    apply lookup_ge_None in Hi.
    apply Hnum, Get_string in Hj.
    destruct (strict_eq _ _) eqn:Heq; [| done].
    apply strict_eq_string in Heq. rewrite Hj in Heq.
    injection Heq as Heq. apply String_inj in Heq. lia.
Qed.

End sequences.

(** X1: queries never change the length of the store and every [create]
    adds one: after any sequence of calls the store is as long as before
    plus the number of [create] calls in the sequence. *)
Theorem exec_length (calls : list call) (users : Users) :
  length (exec calls users) = length users + creates calls.
Proof.
  destruct (exec_grows calls users) as (added & -> & <-).
  apply length_app.
Qed.

(** X2: nothing that is stored is ever removed, replaced or moved: after
    any sequence of calls the store begins with the users it held before,
    in the same order. *)
Theorem exec_keeps_stored_users (calls : list call) (users : Users) :
  take (length users) (exec calls users) = users.
Proof.
  destruct (exec_grows calls users) as (added & -> & _).
  by rewrite take_app_length.
Qed.

(** X3: a lookup that has found a user keeps finding that user: whatever
    calls follow, and whatever ids later [create] inputs bring,
    [findById] of the same argument answers with the same user. *)
Theorem findById_stable
    (calls : list call) (users : Users) (x : value) (user : object) :
  (db.user.findById x users).1 = Some user →
  (db.user.findById x (exec calls users)).1 = Some user.
Proof.
  rewrite !findById_eq. cbn [fst]. intros Hfound.
  destruct (exec_grows calls users) as (added & -> & _).
  by rewrite Array_find_app, Hfound.
Qed.

Lemma findById_stable_witness :
  (db.user.findById (VString "1")
     (exec [ Create {[ "id" := VString "1"; "name" := VString "b" ]}; FindMany ]
        [ {[ "id" := VString "1"; "name" := VString "a" ]} ])).1
  = Some {[ "id" := VString "1"; "name" := VString "a" ]}.
Proof.
  apply (findById_stable
           [ Create {[ "id" := VString "1"; "name" := VString "b" ]}; FindMany ]
           [ {[ "id" := VString "1"; "name" := VString "a" ]} ]
           (VString "1")).
  vm_compute. reflexivity.
Defined.

(** X4: how a lookup changes across one [create]: if [findById(x)] found
    a user before, it finds the same user after; if it found none, it
    finds the new user when the new user's id is [===] to [x], and none
    otherwise. *)
Theorem findById_after_one_create (users : Users) (data : object) (x : value) :
  (db.user.findById x (db.user.create data users).2).1 =
    match (db.user.findById x users).1 with
    | Some user => Some user
    | None =>
        if strict_eq (Get (db.user.create data users).1 "id") x
        then Some (db.user.create data users).1
        else None
    end.
Proof.
  rewrite create_eq, !findById_eq. cbn [fst snd].
  rewrite Array_find_app. by destruct (Array_find _ users).
Qed.

(** X5: [create] copies its input faithfully: the stored user has the
    properties of [data] and the property [id], no other; every property
    of [data], an [id] included, has the value it has in [data]. *)
Theorem create_copies_data (users : Users) (data : object) :
  dom (db.user.create data users).1 = dom data ∪ {[ "id" ]}
  ∧ ∀ k v, data !! k = Some v → (db.user.create data users).1 !! k = Some v.
Proof.
  rewrite create_eq. cbn [fst]. unfold spread. split.
  - by rewrite dom_union_L, dom_singleton_L.
  - intros k v Hk. by apply lookup_union_Some_l.
Qed.

(** ** Stores built without caller-supplied ids *)

(** X6: on a store built from the empty one by calls whose [create]
    inputs bring no id, looking up the decimal string of [i + 1] is
    reading index [i]: it answers with the [i + 1]-th created user, and
    with nothing when fewer users were created; and a lookup of any
    string answers only with a user stored at the index that the string
    numbers. *)
Theorem findById_reads_index (calls : list call) :
  Forall assigns_id calls →
  (∀ i, (db.user.findById (VString (String_ (i + 1))) (exec calls initial)).1
        = exec calls initial !! i)
  ∧ (∀ s user,
       (db.user.findById (VString s) (exec calls initial)).1 = Some user →
       ∃ i, s = String_ (i + 1) ∧ exec calls initial !! i = Some user).
Proof.
  intros Hcalls.
  assert (numbered (exec calls initial)) as Hnum
    by (apply numbered_exec; [done | apply numbered_initial]).
  split.
  - intros i. by apply numbered_findById.
  - intros s user. rewrite findById_eq. cbn [fst]. intros Hfound.
    apply Array_find_Some in Hfound as (i & Hi & Hmatch & _).
    exists i. split; [| done].
    apply strict_eq_string in Hmatch.
    apply Hnum, Get_string in Hi. congruence.
Qed.

Lemma findById_reads_index_witness :
  (db.user.findById (VString (String_ (1 + 1)))
     (exec [ Create {[ "name" := VString "a" ]}; FindById (VString "1");
             Create {[ "name" := VString "b" ]} ] initial)).1
  = exec [ Create {[ "name" := VString "a" ]}; FindById (VString "1");
           Create {[ "name" := VString "b" ]} ] initial !! 1.
Proof.
  assert (Forall assigns_id
    [ Create {[ "name" := VString "a" ]}; FindById (VString "1");
      Create {[ "name" := VString "b" ]} ]) as Hcalls.
  { repeat constructor. }
  exact (proj1 (findById_reads_index _ Hcalls) 1).
Defined.

(** X7: [findById] compares with [===] and never converts its argument:
    on a store built from the empty one by calls whose [create] inputs
    bring no id, every stored id is a string, so a lookup with anything
    that is not a string (the number 1, say, for the id ["1"]) is
    absent. *)
Theorem findById_nonstring_absent (calls : list call) (x : value) :
  Forall assigns_id calls →
  typeof x ≠ "string" →
  (db.user.findById x (exec calls initial)).1 = None.
Proof.
  intros Hcalls Hx.
  assert (numbered (exec calls initial)) as Hnum
    by (apply numbered_exec; [done | apply numbered_initial]).
  rewrite findById_eq. cbn [fst]. apply Array_find_None.
  intros user Huser. apply list_elem_of_lookup in Huser as [i Hi].
  apply Hnum, Get_string in Hi. rewrite Hi.
  destruct x; try reflexivity. by destruct Hx.
Qed.

Lemma findById_nonstring_absent_witness :
  (db.user.findById (VNumber 1%float)
     (exec [ Create {[ "name" := VString "a" ]} ] initial)).1 = None.
Proof.
  apply (findById_nonstring_absent
           [ Create {[ "name" := VString "a" ]} ] (VNumber 1%float)).
  - repeat constructor.
  - simpl. discriminate.
Defined.

(** X8: creating users and listing them: after a run of [create] calls
    whose inputs bring no id, [findMany] answers with the users stored
    before, followed by the inputs in the order of the calls, each with
    the next number as its [id] and otherwise unchanged. *)
Theorem findMany_after_creates (datas : list object) (users : Users) :
  Forall (λ data : object, data !! "id" = None) datas →
  (db.user.findMany (exec (Create <$> datas) users)).1
  = users ++ stored (length users) datas.
Proof.
  change ((db.user.findMany (exec (Create <$> datas) users)).1)
    with (exec (Create <$> datas) users).
  intros Hdatas. revert users.
  induction Hdatas as [| data datas Hdata _ IH]; intros users.
  - by rewrite app_nil_r.
  - rewrite fmap_cons, exec_cons. cbn [step]. rewrite create_eq. cbn [snd].
    rewrite IH, <- (assoc_L (++)). f_equal. cbn [app].
    unfold stored. rewrite imap_cons. f_equal.
    + rewrite spread_insert_id by done. do 3 f_equal. lia.
    + apply imap_ext. intros i data' _. cbn.
      rewrite length_app. cbn [length]. do 3 f_equal. lia.
Qed.

Lemma findMany_after_creates_witness :
  (db.user.findMany
     (exec (Create <$> [ {[ "name" := VString "a" ]};
                         {[ "name" := VString "b" ]} ]) initial)).1
  = [ {[ "id" := VString "1"; "name" := VString "a" ]};
      {[ "id" := VString "2"; "name" := VString "b" ]} ].
Proof.
  rewrite (findMany_after_creates
             [ {[ "name" := VString "a" ]}; {[ "name" := VString "b" ]} ]
             initial).
  - vm_compute. reflexivity.
  - repeat constructor.
Defined.

(** X9: the id that [create] computes counts calls, not ids: from the
    empty store, after any calls at all, a [create] whose input brings no
    id answers with the number of [create] calls made so far plus one,
    as a string, whether or not those calls brought ids of their own. *)
Theorem create_id_counts_creates (calls : list call) (data : object) :
  data !! "id" = None →
  Get (db.user.create data (exec calls initial)).1 "id"
  = VString (String_ (creates calls + 1)).
Proof.
  intros Hdata. rewrite (create_assigned_Get _ _ Hdata).
  destruct (exec_grows calls initial) as (added & -> & <-).
  reflexivity.
Qed.

Lemma create_id_counts_creates_witness :
  Get (db.user.create {[ "name" := VString "b" ]}
         (exec [ Create {[ "id" := VString "2"; "name" := VString "a" ]};
                 FindMany ] initial)).1 "id"
  = VString "2".
Proof.
  apply (create_id_counts_creates
           [ Create {[ "id" := VString "2"; "name" := VString "a" ]}; FindMany ]
           {[ "name" := VString "b" ]}).
  reflexivity.
Defined.
